(** * script.js: the year-filtered map of US mass shootings

    A shallow embedding of [script.js] (the page's only script) and of the
    d3 calls it makes, followed by the properties of the page it maintains.

    - [parseCSV] (lines 280-291) turns one CSV row into an incident.
    - The [Promise.all(...).then] callback (lines 21-265) draws one circle for
      every incident, sorts the incidents, sets the slider up and creates the
      year label and the tooltip: [load].
    - [updateMap] (lines 173-239) filters the incidents by year, joins them to
      the circles, relabels the page and binds the hover listeners.
    - [rScale] (lines 93-95) is d3's square-root scale, in [Module Scale]. *)

From Stdlib Require Import Floats Uint63 ZArith List Bool Lia Sorted Reals Lra.
From stdpp Require Import base strings gmap list.

(** * JavaScript values *)

(** The Numbers the script compares: [Date.prototype.getFullYear] returns
    an integral Number, or NaN for an Invalid Date.  The slider hands its
    value to [updateMap] as a String, and [==] between a Number and a String
    compares the Number with ToNumber of the String; the parameter [year]
    is modelled by that Number. *)
Inductive Number := NaN | Int (z : Z).

#[global] Instance Number_eq_dec : EqDecision Number.
Proof. solve_decision. Defined.

(** [a == b] on two Numbers: NaN equals nothing, itself included. *)
Definition loose_eq (a b : Number) : bool :=
  match a, b with
  | Int x, Int y => Z.eqb x y
  | _, _ => false
  end.

(** [a - b] on two Numbers. *)
Definition minus (a b : Number) : Number :=
  match a, b with
  | Int x, Int y => Int (x - y)
  | _, _ => NaN
  end.

(** A Date object: its time value, or NaN (an Invalid Date). *)
Inductive JSDate := InvalidDate | TimeValue (t : Z).

(** One row as d3.csv hands it to the row function: an object with one
    String per column of the header. *)
Record Row := {
  CaseID : string;
  Location : string;
  Latitude : string;
  Longitude : string;
  Total_Number_of_Victims : string;
  Date : string
}.

Section Script.

(** The other Numbers (coordinates, victim counts, pixels) are binary64
    values the script only hands from one library call to the next; their
    type and the built-ins that produce them are parameters. *)
Context {double : Type}.

(** NaN among them, and unary [+] on a String (ToNumber). *)
Variable NaN64 : double.
Variable ToNumber : string -> double.

(** [new Date(s)]: parsing is left to the host by ECMAScript, and so is the
    time zone of [getFullYear] ([LocalYear t] is YearFromTime(LocalTime(t))). *)
Variable Date_parse : string -> JSDate.
Variable LocalYear : Z -> Z.

(** [d3.geoAlbers().translate([width/2,height/2]).scale(1500)], applied to
    [[longitude, latitude]], and [d3.scaleSqrt().domain([0,50]).range([0,25])]. *)
Variable projection : double * double -> double * double.
Variable rScale : double -> double.
(** (What the scale computes is the subject of [Module Scale] below; the
    page only stores its result.) *)

Definition getFullYear (d : JSDate) : Number :=
  match d with
  | InvalidDate => NaN
  | TimeValue t => Int (LocalYear t)
  end.

(** ** parseCSV (lines 280-291) *)

Record Incident := {
  id : string;
  location : string;
  latitude : double;
  longitude : double;
  victims : double;
  date : JSDate;
  year : Number
}.

Definition parseCSV (data : Row) : Incident :=
  let d_date := Date_parse (Date data) in
  {| id := CaseID data;
     location := Location data;
     latitude := ToNumber (Latitude data);
     longitude := ToNumber (Longitude data);
     victims := ToNumber (Total_Number_of_Victims data);
     date := d_date;
     year := getFullYear d_date |}.

(** ** The page as the script sees it *)

(** An attribute holds the String it was set to; one set from a computed
    Number is kept as that Number. *)
Inductive Value := Num (x : double) | Str (s : string).

(** The two listeners of lines 232-237, by name:
    [function(d){ tooltip.style("visibility","visible").text(d.location); }]
    and [function(){ tooltip.style("visibility","hidden"); }]. *)
Inductive Listener := ShowLocation | HideTooltip.

(** A [<circle>] of the svg: the DOM node (its identity), the datum d3 bound
    to it, its attributes and its listeners by event type. *)
Record Circle := {
  node : nat;
  datum : Incident;
  attrs : gmap string Value;
  listeners : gmap string Listener
}.

(** The tooltip [<div>]: its inline style and its text. *)
Record Tooltip := {
  style : gmap string string;
  text : string
}.

(** What the script reads and writes of the document: the circles of the
    svg in document order ([svg.selectAll("circle")]), the text of the year
    label, the tooltip, and the next unused node. *)
Record Page := {
  circles : list Circle;
  yearLabel : Number;
  tooltip : Tooltip;
  fresh : nat
}.

(** ** d3-selection *)

(** A selection is an array of DOM nodes; every call below acts on the nodes
    it holds, so each takes the svg's circles and returns them changed. *)
Definition Selection := list nat.

(** [svg.selectAll("circle")]: the circles, in document order. *)
Definition selectAll (svg : list Circle) : Selection := node <$> svg.

(** [selection.each(f)]: [f] changes every node of the selection. *)
Definition each (f : Circle -> Circle) (sel : Selection) (svg : list Circle) : list Circle :=
  (fun c => if bool_decide (node c ∈ sel) then f c else c) <$> svg.

Definition bind (d : Incident) (c : Circle) : Circle :=
  {| node := node c; datum := d; attrs := attrs c; listeners := listeners c |}.

Definition set_attr (name : string) (v : Value) (c : Circle) : Circle :=
  {| node := node c; datum := datum c; attrs := <[name := v]> (attrs c);
     listeners := listeners c |}.

Definition set_listener (type : string) (l : Listener) (c : Circle) : Circle :=
  {| node := node c; datum := datum c; attrs := attrs c;
     listeners := <[type := l]> (listeners c) |}.

(** [selection.data(values)] without a key function joins by index
    (d3's bindIndex): node [i] of the group is rebound to [values[i]]
    ([node.__data__ = data[i]]) and updates; the values beyond the group
    enter; the nodes beyond the values exit. *)
Record Join := {
  update : Selection;
  enter : list Incident;
  exit : Selection
}.

Definition set_datum (svg : list Circle) (nd : nat * Incident) : list Circle :=
  (fun c => if bool_decide (node c = fst nd) then bind (snd nd) c else c) <$> svg.

Definition data (group : Selection) (values : list Incident) (svg : list Circle)
  : Join * list Circle :=
  ({| update := take (length values) group;
      enter := drop (length group) values;
      exit := drop (length values) group |},
   foldl set_datum svg (zip group values)).

(** [enter.append("circle")]: one new node per entering datum, bound to it.
    In an index join no update node follows an entering one, so each new
    node is appended at the end of the svg. *)
Definition create (next : nat) (entering : list Incident) : list Circle :=
  imap (fun i d => {| node := next + i; datum := d; attrs := ∅; listeners := ∅ |}) entering.

Definition append (next : nat) (entering : list Incident) (svg : list Circle)
  : Selection * list Circle :=
  (selectAll (create next entering), svg ++ create next entering).

(** [selection.attr(name, f)]: [f] is called with each node's datum. *)
Definition attr (name : string) (f : Incident -> Value) : Selection -> list Circle -> list Circle :=
  each (fun c => set_attr name (f (datum c)) c).

(** [selection.transition().attr(name, f)], once the transition has run to
    its end: the attribute has its target value. *)
Definition transition_attr := attr.

(** [entered.merge(updated)]: by index, so the update nodes come first. *)
Definition merge (entered updated : Selection) : Selection := updated ++ entered.

(** [selection.remove()]: the nodes leave the document. *)
Definition remove (sel : Selection) (svg : list Circle) : list Circle :=
  filter (fun c => node c ∉ sel) svg.

(** [selection.on(type, listener)] replaces the node's listener of that type. *)
Definition on (type : string) (l : Listener) : Selection -> list Circle -> list Circle :=
  each (set_listener type l).

(** The callbacks of the attribute calls (lines 104-112 and 195-214). *)
Definition cx (d : Incident) : Value := Num (fst (projection (longitude d, latitude d))).
Definition cy (d : Incident) : Value := Num (snd (projection (longitude d, latitude d))).
Definition r (d : Incident) : Value := Num (rScale (victims d)).
Definition opacity (_ : Incident) : Value := Str "0.7".
Definition fill (_ : Incident) : Value := Str "#CC0000".

(** The five attribute calls of lines 104-112, 195-203 and again 206-214. *)
Definition place (set : string -> (Incident -> Value) -> Selection -> list Circle -> list Circle)
    (sel : Selection) (svg : list Circle) : list Circle :=
  set "fill" fill sel (set "opacity" opacity sel (set "r" r sel
    (set "cy" cy sel (set "cx" cx sel svg)))).

(** ** updateMap (lines 173-239) *)

(** [function(d){ return d.year == year; }] *)
Definition year_is (y : Number) (d : Incident) : bool := loose_eq (year d) y.

Definition yearData (shootingsData : list Incident) (year : Number) : list Incident :=
  List.filter (year_is year) shootingsData.

Definition updateMap (shootingsData : list Incident) (year : Number) (p : Page) : Page :=
  (* TASK 1, lines 180-183 *)
  let yearData := yearData shootingsData year in
  (* TASK 2, lines 192-215 *)
  let '(enterPoints, svg1) := data (selectAll (circles p)) yearData (circles p) in
  let '(entered, svg2) := append (fresh p) (enter enterPoints) svg1 in
  let svg3 := place attr entered svg2 in
  let svg4 := place transition_attr (merge entered (update enterPoints)) svg3 in
  let svg5 := remove (exit enterPoints) svg4 in
  (* TASK 3, lines 232-237 *)
  let drawn := selectAll svg5 in
  let svg6 := on "mouseover" ShowLocation drawn svg5 in
  let svg7 := on "mouseout" HideTooltip drawn svg6 in
  {| circles := svg7;
     yearLabel := year;   (* line 220 *)
     tooltip := tooltip p;
     fresh := fresh p + length entered |}.

(** ** The load callback (lines 21-265) *)

(** [function(a,b) { return a.year - b.year; }] decides where [sort] puts
    [a] against a later [b]: [a] stays in front unless the difference is
    positive.  Array.prototype.sort is stable and reads a NaN result as 0;
    when a year is NaN the comparator is no consistent order and ECMAScript
    leaves the result to the host, of which this is one. *)
Definition stays_before (a b : Incident) : bool :=
  match minus (year a) (year b) with
  | Int v => (v <=? 0)%Z
  | NaN => true
  end.

Fixpoint insert_sorted (a : Incident) (l : list Incident) : list Incident :=
  match l with
  | [] => [a]
  | b :: l' => if stays_before a b then a :: b :: l' else b :: insert_sorted a l'
  end.

Definition sort (l : list Incident) : list Incident := foldr insert_sorted [] l.

(** What the callback leaves behind for its closures: the sorted incidents,
    the properties it set on the slider, and the page. *)
Record App := {
  shootingsData : list Incident;
  slider : gmap string Number;
  page : Page
}.

Definition load (incidents : list Incident) : option App :=
  (* lines 100-112: one circle for each incident of the whole data set *)
  let '(joined, svg1) := data (selectAll []) incidents [] in
  let '(entered, svg2) := append 0 (enter joined) svg1 in
  let svg3 := place attr entered svg2 in
  (* line 122 *)
  let shootingsData := sort incidents in
  (* lines 133-136: [shootingsData[0].year] throws when there is no incident *)
  match head shootingsData, last shootingsData with
  | Some earliest, Some latest =>
      let slider : gmap string Number :=
        <["value" := year latest]> (<["max" := year latest]> (<["min" := year earliest]> ∅)) in
      (* line 138 *)
      let initialYear := default NaN (slider !! "value") in
      Some {| shootingsData := shootingsData;
              slider := slider;
              page := {| circles := svg3;
                         yearLabel := initialYear;       (* lines 144-148 *)
                         tooltip := {| style := ∅; text := "" |};   (* lines 258-260 *)
                         fresh := length entered |} |}
  | _, _ => None
  end.

(** ** Events *)

(** The slider's input listener (lines 157-160): the browser has set the
    slider's value; [updateMap(this.value)] runs. *)
Definition input (value : Number) (a : App) : App :=
  {| shootingsData := shootingsData a;
     slider := <["value" := value]> (slider a);
     page := updateMap (shootingsData a) value (page a) |}.

(** A listener called by d3 with the datum of the node it is bound to. *)
Definition call (l : Listener) (d : Incident) (t : Tooltip) : Tooltip :=
  match l with
  | ShowLocation => {| style := <["visibility" := "visible"]> (style t); text := location d |}
  | HideTooltip => {| style := <["visibility" := "hidden"]> (style t); text := text t |}
  end.

(** An event of the given type on the circle that is node [n]. *)
Definition dispatch (type : string) (n : nat) (p : Page) : Page :=
  match List.find (fun c => bool_decide (node c = n)) (circles p) with
  | Some c =>
      match listeners c !! type with
      | Some l => {| circles := circles p; yearLabel := yearLabel p;
                     tooltip := call l (datum c) (tooltip p); fresh := fresh p |}
      | None => p
      end
  | None => p
  end.

(** ** The state the script keeps its nodes in *)

(** Nodes are distinct DOM objects, all created before [fresh]. *)
Definition wf (p : Page) : Prop :=
  NoDup (selectAll (circles p)) /\ Forall (fun c => node c < fresh p) (circles p).

#[global] Instance wf_dec (p : Page) : Decision (wf p).
Proof. unfold wf. apply _. Defined.

(** ** The index join, position by position *)

(** The attributes and the listeners a circle has once [updateMap] is done
    with it. *)
Definition styled (c : Circle) : Circle :=
  set_attr "fill" (fill (datum c)) (set_attr "opacity" (opacity (datum c))
    (set_attr "r" (r (datum c)) (set_attr "cy" (cy (datum c))
      (set_attr "cx" (cx (datum c)) c)))).

Definition hovering (c : Circle) : Circle :=
  set_listener "mouseout" HideTooltip (set_listener "mouseover" ShowLocation c).

(** The circles after [data]: the first ones rebound, the others as they were. *)
Definition rebound (svg : list Circle) (values : list Incident) : list Circle :=
  zip_with (fun c d => bind d c) svg values ++ drop (length values) svg.

(** The circles an index join of [values] leaves in the svg: the nodes
    that were there, as far as the values go and rebound in order, then one
    new node for each value beyond them. *)
Definition join_by_index (svg : list Circle) (values : list Incident) (next : nat) : list Circle :=
  zip_with (fun c d => bind d c) svg values ++ create next (drop (length svg) values).

(** The number of incidents of a collection whose year is [Y]. *)
Fixpoint count_year (Y : Z) (l : list Incident) : nat :=
  match l with
  | [] => 0
  | d :: l' => (if decide (year d = Int Y) then 1 else 0) + count_year Y l'
  end.

(** The ids of the incidents the circles show, in document order. *)
Definition rendered_ids (p : Page) : list string := (fun c => id (datum c)) <$> circles p.

(** A slider dragged through the years [ys], one [updateMap] for each. *)
Definition updates (shootingsData : list Incident) (ys : list Number) (p : Page) : Page :=
  foldl (fun p y => updateMap shootingsData y p) p ys.

(** The slider's input events [ys], in order, on the loaded page. *)
Definition inputs (ys : list Number) (a : App) : App := foldl (fun a y => input y a) a ys.

(** What can happen on the loaded page: the slider is moved, or the pointer
    enters or leaves a circle ([type] is "mouseover" or "mouseout"; an event
    of a type the circle has no listener for does nothing). *)
Inductive Event := SliderInput (value : Number) | Pointer (type : string) (n : nat).

Definition handle (a : App) (e : Event) : App :=
  match e with
  | SliderInput value => input value a
  | Pointer type n =>
      {| shootingsData := shootingsData a; slider := slider a;
         page := dispatch type n (page a) |}
  end.

Definition run (es : list Event) (a : App) : App := foldl handle a es.


(** [a] is of no later year than [b], both years being integers. *)
Definition year_le (a b : Incident) : Prop :=
  exists x y, year a = Int x /\ year b = Int y /\ (x <= y)%Z.

(** * Properties *)

(** ** The index join *)

Lemma set_datum_other (svg : list Circle) n d :
  n ∉ selectAll svg -> set_datum svg (n, d) = svg.
Proof.
  unfold set_datum, selectAll. induction svg as [|c svg IH]; intros Hn; [done|].
  rewrite fmap_cons in Hn. apply not_elem_of_cons in Hn as [Hc Hn].
  rewrite fmap_cons. simpl. rewrite bool_decide_eq_false_2 by done.
  f_equal. by apply IH.
Qed.

Lemma set_datum_here (pre post : list Circle) c d :
  NoDup (selectAll (pre ++ c :: post)) ->
  set_datum (pre ++ c :: post) (node c, d) = pre ++ bind d c :: post.
Proof.
  unfold selectAll. rewrite fmap_app, fmap_cons.
  intros Hnd. apply NoDup_app in Hnd as (_ & Hpre & Hpost).
  apply NoDup_cons in Hpost as [Hpost _].
  unfold set_datum at 1. rewrite fmap_app, fmap_cons. simpl.
  rewrite bool_decide_eq_true_2 by done.
  f_equal; [|f_equal].
  - apply (set_datum_other pre (node c) d). intros Hin. apply (Hpre _ Hin). left.
  - by apply (set_datum_other post (node c) d).
Qed.

Lemma foldl_set_datum (pre todo : list Circle) (values : list Incident) :
  NoDup (selectAll (pre ++ todo)) ->
  foldl set_datum (pre ++ todo) (zip (selectAll todo) values) = pre ++ rebound todo values.
Proof.
  revert pre values. induction todo as [|c todo IH]; intros pre values Hnd.
  - by destruct values.
  - destruct values as [|d values]; [done|].
    unfold selectAll. rewrite fmap_cons. simpl.
    rewrite set_datum_here by done.
    replace (pre ++ bind d c :: todo) with ((pre ++ [bind d c]) ++ todo)
      by (by rewrite <- app_assoc).
    fold (selectAll todo). rewrite IH.
    + by rewrite <- app_assoc.
    + revert Hnd. unfold selectAll.
      by rewrite !fmap_app, !fmap_cons, <- app_assoc.
Qed.

Lemma each_app f sel (a b : list Circle) :
  each f sel (a ++ b) = each f sel a ++ each f sel b.
Proof. unfold each. apply fmap_app. Qed.

Lemma each_all f sel (svg : list Circle) :
  (forall n, n ∈ selectAll svg -> n ∈ sel) -> each f sel svg = f <$> svg.
Proof.
  intros Hin. unfold each. apply list_fmap_ext. intros i c Hc.
  rewrite bool_decide_eq_true_2; [done|].
  apply Hin. unfold selectAll. apply list_elem_of_fmap. exists c. split; [done|].
  by apply list_elem_of_lookup_2 in Hc.
Qed.

Lemma each_none f sel (svg : list Circle) :
  (forall n, n ∈ selectAll svg -> n ∉ sel) -> each f sel svg = svg.
Proof.
  intros Hout. unfold each. rewrite <- (list_fmap_id svg) at 2.
  apply list_fmap_ext. intros i c Hc.
  rewrite bool_decide_eq_false_2; [done|].
  apply Hout. unfold selectAll. apply list_elem_of_fmap. exists c. split; [done|].
  by apply list_elem_of_lookup_2 in Hc.
Qed.

Lemma place_attr sel (svg : list Circle) : place attr sel svg = each styled sel svg.
Proof.
  unfold place, attr, each. rewrite <- !list_fmap_compose.
  apply list_fmap_ext. intros i c _. simpl.
  destruct (bool_decide (node c ∈ sel)) eqn:Hsel; simpl;
    repeat (rewrite Hsel; simpl); done.
Qed.

Lemma remove_app sel (a b : list Circle) :
  remove sel (a ++ b) = remove sel a ++ remove sel b.
Proof. unfold remove. apply filter_app. Qed.

Lemma remove_all sel (svg : list Circle) :
  (forall n, n ∈ selectAll svg -> n ∈ sel) -> remove sel svg = [].
Proof.
  intros Hin. unfold remove. induction svg as [|c svg IH]; [done|].
  rewrite filter_cons_False.
  - apply IH. intros n Hn. apply Hin. unfold selectAll. rewrite fmap_cons. by right.
  - intros Hc. apply Hc, Hin. unfold selectAll. rewrite fmap_cons. left.
Qed.

Lemma remove_none sel (svg : list Circle) :
  (forall n, n ∈ selectAll svg -> n ∉ sel) -> remove sel svg = svg.
Proof.
  intros Hout. unfold remove. induction svg as [|c svg IH]; [done|].
  rewrite filter_cons_True.
  - f_equal. apply IH. intros n Hn. apply Hout. unfold selectAll. rewrite fmap_cons. by right.
  - apply Hout. unfold selectAll. rewrite fmap_cons. left.
Qed.

(** No call changes which node a circle is. *)
Lemma selectAll_fmap (f : Circle -> Circle) (svg : list Circle) :
  (forall c, node (f c) = node c) -> selectAll (f <$> svg) = selectAll svg.
Proof.
  intros Hf. unfold selectAll. rewrite <- list_fmap_compose.
  apply list_fmap_ext. intros i c _. apply Hf.
Qed.

Lemma selectAll_styled (svg : list Circle) : selectAll (styled <$> svg) = selectAll svg.
Proof. by apply selectAll_fmap. Qed.

Lemma selectAll_zip_bind (svg : list Circle) (values : list Incident) :
  selectAll (zip_with (fun c d => bind d c) svg values) = take (length values) (selectAll svg).
Proof.
  unfold selectAll. revert values.
  induction svg as [|c svg IH]; intros [|d values]; csimpl; try done.
  by rewrite IH.
Qed.

Lemma selectAll_create next (entering : list Incident) :
  selectAll (create next entering) = seq next (length entering).
Proof.
  unfold selectAll, create. rewrite fmap_imap.
  rewrite <- (list_fmap_id (seq next (length entering))).
  rewrite <- (imap_seq entering Datatypes.id next). by apply imap_ext.
Qed.

Lemma datum_create next (entering : list Incident) :
  datum <$> create next entering = entering.
Proof.
  unfold create. rewrite fmap_imap.
  rewrite <- (list_fmap_id entering) at 2.
  rewrite <- (imap_const Datatypes.id entering).
  by apply imap_ext.
Qed.

Lemma datum_zip_bind (svg : list Circle) (values : list Incident) :
  datum <$> zip_with (fun c d => bind d c) svg values = take (length svg) values.
Proof.
  revert values. induction svg as [|c svg IH]; intros [|d values]; csimpl; try done.
  by rewrite IH.
Qed.

Lemma circle_eq (c c' : Circle) :
  node c = node c' -> datum c = datum c' -> attrs c = attrs c' ->
  listeners c = listeners c' -> c = c'.
Proof. destruct c, c'. simpl. by intros -> -> -> ->. Qed.

Lemma attrs_styled c :
  attrs (styled c) =
    <["fill" := fill (datum c)]> (<["opacity" := opacity (datum c)]>
      (<["r" := r (datum c)]> (<["cy" := cy (datum c)]>
        (<["cx" := cx (datum c)]> (attrs c))))).
Proof. done. Qed.

(** Setting the five attributes of a circle that has them changes nothing. *)
Lemma attrs_styled_again (d : Incident) (m : gmap string Value) :
  let styled_attrs :=
    <["fill" := fill d]> (<["opacity" := opacity d]> (<["r" := r d]>
      (<["cy" := cy d]> (<["cx" := cx d]> m)))) in
  <["fill" := fill d]> (<["opacity" := opacity d]> (<["r" := r d]>
    (<["cy" := cy d]> (<["cx" := cx d]> styled_attrs)))) = styled_attrs.
Proof.
  intros M.
  assert (Hcx : M !! "cx" = Some (cx d))
    by (unfold M; by rewrite !lookup_insert_ne, lookup_insert_eq by done).
  assert (Hcy : M !! "cy" = Some (cy d))
    by (unfold M; by rewrite !lookup_insert_ne, lookup_insert_eq by done).
  assert (Hr : M !! "r" = Some (r d))
    by (unfold M; by rewrite !lookup_insert_ne, lookup_insert_eq by done).
  assert (Hopacity : M !! "opacity" = Some (opacity d))
    by (unfold M; by rewrite !lookup_insert_ne, lookup_insert_eq by done).
  assert (Hfill : M !! "fill" = Some (fill d))
    by (unfold M; by rewrite lookup_insert_eq).
  by rewrite (insert_id M "cx"), (insert_id M "cy"), (insert_id M "r"),
    (insert_id M "opacity"), (insert_id M "fill").
Qed.

Lemma styled_styled c : styled (styled c) = styled c.
Proof.
  apply circle_eq; try done.
  rewrite (attrs_styled (styled c)), (attrs_styled c).
  apply attrs_styled_again.
Qed.

Lemma wf_lt p n : wf p -> n ∈ selectAll (circles p) -> n < fresh p.
Proof.
  intros [_ Hlt] Hn. unfold selectAll in Hn.
  apply list_elem_of_fmap in Hn as (c & -> & Hc).
  rewrite Forall_forall in Hlt. by apply Hlt.
Qed.

Lemma take_not_drop (l : list nat) m n : NoDup l -> n ∈ take m l -> n ∉ drop m l.
Proof.
  intros Hnd. rewrite <- (take_drop m l) in Hnd.
  apply NoDup_app in Hnd as (_ & H & _). apply H.
Qed.

Lemma elem_of_take_l (l : list nat) m n : n ∈ take m l -> n ∈ l.
Proof. intros H. rewrite <- (take_drop m l). apply elem_of_app. by left. Qed.

Lemma elem_of_drop_l (l : list nat) m n : n ∈ drop m l -> n ∈ l.
Proof. intros H. rewrite <- (take_drop m l). apply elem_of_app. by right. Qed.

(** Lines 232-237: both listeners on every circle of the selection. *)
Lemma on_selectAll (svg : list Circle) :
  on "mouseout" HideTooltip (selectAll svg) (on "mouseover" ShowLocation (selectAll svg) svg)
  = hovering <$> svg.
Proof.
  unfold on. rewrite (each_all _ _ svg) by done.
  rewrite each_all by (by rewrite selectAll_fmap).
  by rewrite <- list_fmap_compose.
Qed.

Lemma updateMap_join shootingsData year p :
  wf p ->
  circles (updateMap shootingsData year p) =
    hovering <$> (styled <$> join_by_index (circles p) (yearData shootingsData year) (fresh p)).
Proof.
  intros Hwf. pose proof Hwf as [Hnd _].
  unfold updateMap, data, append. cbn [circles update enter exit fst snd].
  pose proof (foldl_set_datum [] (circles p) (yearData shootingsData year) Hnd) as Hfold.
  simpl in Hfold. rewrite Hfold. clear Hfold.
  rewrite on_selectAll.
  unfold transition_attr, rebound, merge, join_by_index. rewrite !place_attr.
  replace (length (selectAll (circles p))) with (length (circles p))
    by (unfold selectAll; by rewrite length_fmap).
  set (values := yearData shootingsData year).
  set (U := zip_with (fun c d => bind d c) (circles p) values).
  set (X := drop (length values) (circles p)).
  set (E := create (fresh p) (drop (length (circles p)) values)).
  assert (HU : selectAll U = take (length values) (selectAll (circles p)))
    by apply selectAll_zip_bind.
  assert (HX : selectAll X = drop (length values) (selectAll (circles p)))
    by (unfold selectAll, X; by rewrite fmap_drop).
  assert (HE : forall n, n ∈ selectAll E -> fresh p <= n).
  { intros n. unfold E. rewrite selectAll_create, elem_of_seq. lia. }
  assert (Hold : forall n, n ∈ selectAll (circles p) -> n ∉ selectAll E).
  { intros n Hn Hin. apply HE in Hin. apply (wf_lt p n Hwf) in Hn. lia. }
  assert (Hstay : forall n, n ∈ selectAll U -> n ∉ selectAll X).
  { intros n. rewrite HU, HX. by apply take_not_drop. }
  rewrite <- HU, <- HX.
  (* lines 195-203: only the new nodes are styled *)
  rewrite !each_app.
  rewrite (each_none _ _ U), (each_none _ _ X), (each_all _ _ E); try done.
  2: { intros n Hn. apply Hold. rewrite HX in Hn. by apply elem_of_drop_l in Hn. }
  2: { intros n Hn. apply Hold. rewrite HU in Hn. by apply elem_of_take_l in Hn. }
  (* lines 204-214: the update and the new nodes are *)
  rewrite (each_all _ _ U), (each_none _ _ X), (each_all _ _ (styled <$> E)).
  2: { intros n Hn. rewrite selectAll_styled in Hn. apply elem_of_app. by right. }
  2: { intros n Hn. apply not_elem_of_app. split.
       - intros Hin. by apply (Hstay n).
       - apply Hold. rewrite HX in Hn. by apply elem_of_drop_l in Hn. }
  2: { intros n Hn. apply elem_of_app. by left. }
  (* line 215: the exiting nodes go *)
  rewrite !remove_app.
  rewrite (remove_none _ (styled <$> U)), (remove_all _ X), (remove_none _ (styled <$> (styled <$> E)));
    try done.
  2: { intros n. rewrite !selectAll_styled. intros Hn Hin. apply (Hold n); [|done].
       rewrite HX in Hin. by apply elem_of_drop_l in Hin. }
  2: { intros n. rewrite selectAll_styled. apply Hstay. }
  rewrite app_nil_r, !fmap_app. do 2 f_equal.
  rewrite <- list_fmap_compose.
  apply list_fmap_ext. intros i c _. apply styled_styled.
Qed.

Lemma selectAll_join (svg : list Circle) (values : list Incident) next :
  selectAll (join_by_index svg values next) =
    take (length values) (selectAll svg) ++ seq next (length values - length svg).
Proof.
  unfold join_by_index, selectAll at 1. rewrite fmap_app.
  fold (selectAll (zip_with (fun c d => bind d c) svg values)).
  fold (selectAll (create next (drop (length svg) values))).
  by rewrite selectAll_zip_bind, selectAll_create, length_drop.
Qed.

Lemma datum_join (svg : list Circle) (values : list Incident) next :
  datum <$> join_by_index svg values next = values.
Proof.
  unfold join_by_index. rewrite fmap_app, datum_zip_bind, datum_create.
  apply take_drop.
Qed.

Lemma selectAll_updateMap shootingsData year p :
  wf p ->
  selectAll (circles (updateMap shootingsData year p)) =
    take (length (yearData shootingsData year)) (selectAll (circles p))
    ++ seq (fresh p) (length (yearData shootingsData year) - length (circles p)).
Proof.
  intros Hwf. rewrite updateMap_join by done.
  rewrite (selectAll_fmap hovering), selectAll_styled by done.
  apply selectAll_join.
Qed.

Lemma fresh_updateMap shootingsData year p :
  fresh (updateMap shootingsData year p) =
    fresh p + (length (yearData shootingsData year) - length (circles p)).
Proof.
  unfold updateMap, data, append. cbn [fresh enter fst snd].
  unfold selectAll, create. by rewrite !length_fmap, length_imap, length_drop.
Qed.

(** [updateMap] keeps the nodes distinct. *)
Lemma wf_updateMap shootingsData year p : wf p -> wf (updateMap shootingsData year p).
Proof.
  intros Hwf. split.
  - rewrite selectAll_updateMap by done. apply NoDup_app. split; [|split].
    + destruct Hwf as [Hnd _]. rewrite <- (take_drop (length (yearData shootingsData year))) in Hnd.
      by apply NoDup_app in Hnd as (? & _).
    + intros n Hn. apply elem_of_take_l in Hn. apply (wf_lt p n Hwf) in Hn.
      rewrite elem_of_seq. lia.
    + apply NoDup_seq.
  - apply Forall_forall. intros c Hc.
    assert (Hn : node c ∈ selectAll (circles (updateMap shootingsData year p)))
      by (unfold selectAll; by apply list_elem_of_fmap_2).
    rewrite selectAll_updateMap in Hn by done. rewrite fresh_updateMap.
    apply elem_of_app in Hn as [Hn|Hn].
    + apply elem_of_take_l in Hn. apply (wf_lt p _ Hwf) in Hn. lia.
    + apply elem_of_seq in Hn. lia.
Qed.

(** ** The filter of lines 180-183 *)

Lemma loose_eq_Int (a : Number) (Y : Z) : loose_eq a (Int Y) = true <-> a = Int Y.
Proof.
  destruct a as [|x]; simpl; [done|].
  rewrite Z.eqb_eq. split; [by intros ->|by intros [= ->]].
Qed.

Lemma loose_eq_NaN_l (b : Number) : loose_eq NaN b = false.
Proof. done. Qed.

Lemma loose_eq_NaN_r (a : Number) : loose_eq a NaN = false.
Proof. by destruct a. Qed.

Lemma elem_of_yearData shootingsData y (d : Incident) :
  d ∈ yearData shootingsData y <-> d ∈ shootingsData /\ loose_eq (year d) y = true.
Proof.
  unfold yearData, year_is. rewrite !list_elem_of_In, filter_In. done.
Qed.

(** C1. For every year Y the visible set [updateMap(Y)] computes holds
    exactly the incidents of the loaded collection whose year is Y, by
    equality and not by range: each member has that year, each incident of
    that year is a member, they come in the collection's order, and there
    are as many as the collection has incidents of that year. *)
Theorem updateMap_filters_by_year (shootingsData : list Incident) (Y : Z) :
  (forall d, d ∈ yearData shootingsData (Int Y) <-> d ∈ shootingsData /\ year d = Int Y)
  /\ length (yearData shootingsData (Int Y)) = count_year Y shootingsData
  /\ sublist (yearData shootingsData (Int Y)) shootingsData.
Proof.
  split; [|split].
  - intros d. by rewrite elem_of_yearData, loose_eq_Int.
  - unfold yearData. induction shootingsData as [|d l IH]; [done|].
    simpl. unfold year_is at 1. case_decide as Hy.
    + apply loose_eq_Int in Hy. rewrite Hy. simpl. by rewrite IH.
    + destruct (loose_eq (year d) (Int Y)) eqn:Heq.
      * by apply loose_eq_Int in Heq.
      * done.
  - unfold yearData. induction shootingsData as [|d l IH]; [done|].
    simpl. destruct (year_is (Int Y) d).
    + by apply sublist_skip.
    + by apply sublist_cons.
Qed.

(** ** The circles after updateMap *)

Lemma wf_updates shootingsData ys p : wf p -> wf (updates shootingsData ys p).
Proof.
  revert p. induction ys as [|y ys IH]; intros p Hwf; [done|].
  simpl. by apply IH, wf_updateMap.
Qed.

Lemma datum_updateMap shootingsData year p :
  wf p -> datum <$> circles (updateMap shootingsData year p) = yearData shootingsData year.
Proof.
  intros Hwf. rewrite updateMap_join by done.
  rewrite <- !list_fmap_compose.
  rewrite <- (datum_join (circles p) (yearData shootingsData year) (fresh p)) at 2.
  by apply list_fmap_ext.
Qed.

(** C3. Whatever years [updateMap] was called with before, once
    [updateMap(Y)] has settled the circles show the incidents of the visible
    set of Y, one circle each and in its order: the ids of the rendered
    circles are exactly the ids of the visible set. *)
Theorem updateMap_renders_visible_set shootingsData (ys : list Number) (Y : Number) p :
  wf p ->
  rendered_ids (updateMap shootingsData Y (updates shootingsData ys p))
    = id <$> yearData shootingsData Y.
Proof.
  intros Hwf. unfold rendered_ids.
  rewrite <- (datum_updateMap shootingsData Y (updates shootingsData ys p))
    by by apply wf_updates.
  by rewrite <- list_fmap_compose.
Qed.

Lemma zip_bind_same (svg : list Circle) :
  zip_with (fun c d => bind d c) svg (datum <$> svg) = svg.
Proof.
  induction svg as [|c svg IH]; [done|]. csimpl. rewrite IH. by destruct c.
Qed.

Lemma listeners_hovering c :
  listeners (hovering c) =
    <["mouseout" := HideTooltip]> (<["mouseover" := ShowLocation]> (listeners c)).
Proof. done. Qed.

Lemma attrs_hovering c : attrs (hovering c) = attrs c.
Proof. done. Qed.

Lemma datum_hovering c : datum (hovering c) = datum c.
Proof. done. Qed.

Lemma datum_styled c : datum (styled c) = datum c.
Proof. done. Qed.

Lemma listeners_styled c : listeners (styled c) = listeners c.
Proof. done. Qed.

Lemma hovering_styled c : hovering (styled (hovering (styled c))) = hovering (styled c).
Proof.
  apply circle_eq.
  - done.
  - by rewrite !datum_hovering, !datum_styled, datum_hovering, datum_styled.
  - rewrite !attrs_hovering, (attrs_styled (hovering (styled c))).
    rewrite datum_hovering, datum_styled, attrs_hovering, attrs_styled.
    apply attrs_styled_again.
  - rewrite !listeners_hovering, listeners_styled, listeners_hovering, listeners_styled.
    set (m := <["mouseout" := HideTooltip]> (<["mouseover" := ShowLocation]> (listeners c))).
    assert (Hover : m !! "mouseover" = Some ShowLocation)
      by (unfold m; by rewrite lookup_insert_ne, lookup_insert_eq).
    assert (Hout : m !! "mouseout" = Some HideTooltip)
      by (unfold m; by rewrite lookup_insert_eq).
    by rewrite (insert_id m "mouseover"), (insert_id m "mouseout").
Qed.

Lemma page_eq (p q : Page) :
  circles p = circles q -> yearLabel p = yearLabel q -> tooltip p = tooltip q ->
  fresh p = fresh q -> p = q.
Proof. destruct p, q. simpl. by intros -> -> -> ->. Qed.

Lemma yearLabel_updateMap shootingsData year p :
  yearLabel (updateMap shootingsData year p) = year.
Proof. done. Qed.

Lemma tooltip_updateMap shootingsData year p :
  tooltip (updateMap shootingsData year p) = tooltip p.
Proof. done. Qed.

(** C4. [updateMap(Y)] called a second time leaves the page as the first
    call left it: the same nodes with the same data, attributes and
    listeners, the same label and tooltip, and no node created. *)
Theorem updateMap_idempotent shootingsData (Y : Number) p :
  wf p ->
  updateMap shootingsData Y (updateMap shootingsData Y p) = updateMap shootingsData Y p.
Proof.
  intros Hwf. pose proof (wf_updateMap shootingsData Y p Hwf) as Hwf'.
  pose proof (datum_updateMap shootingsData Y p Hwf) as Hdatum.
  assert (Hlen : length (circles (updateMap shootingsData Y p))
                 = length (yearData shootingsData Y)).
  { by rewrite <- Hdatum, length_fmap. }
  apply page_eq; try done.
  - rewrite (updateMap_join shootingsData Y (updateMap shootingsData Y p)) by done.
    unfold join_by_index. rewrite Hlen, drop_all.
    change (create (fresh (updateMap shootingsData Y p)) []) with (@nil Circle).
    rewrite app_nil_r.
    rewrite <- Hdatum at 1. rewrite zip_bind_same.
    rewrite updateMap_join by done.
    rewrite <- !list_fmap_compose. apply list_fmap_ext. intros i c _.
    unfold compose. apply hovering_styled.
  - rewrite fresh_updateMap, Hlen. lia.
Qed.

Lemma zip_nil_r {A B} (l : list A) : zip l (@nil B) = [].
Proof. by destruct l. Qed.

(** C8. A year no incident has (whether or not some earlier or later year
    has incidents) is no error: the visible set is empty, every circle that
    was rendered is removed, and the label shows the year. *)
Theorem updateMap_year_without_incidents shootingsData (Y : Number) p :
  (forall d, d ∈ shootingsData -> year d <> Y) ->
  yearData shootingsData Y = []
  /\ circles (updateMap shootingsData Y p) = []
  /\ yearLabel (updateMap shootingsData Y p) = Y.
Proof.
  intros Hnone.
  assert (Hempty : yearData shootingsData Y = []).
  { apply elem_of_nil_inv. intros d Hd. apply elem_of_yearData in Hd as [Hd Hy].
    apply (Hnone d Hd). destruct Y as [|y]; [by rewrite loose_eq_NaN_r in Hy|].
    by apply loose_eq_Int. }
  split; [done|]. split; [|done].
  unfold updateMap, data, append. rewrite Hempty.
  cbn [circles update enter exit fst snd length]. rewrite zip_nil_r, drop_nil.
  change (create (fresh p) []) with (@nil Circle).
  change (foldl set_datum (circles p) []) with (circles p).
  change (selectAll (@nil Circle)) with (@nil nat).
  rewrite app_nil_r, on_selectAll.
  unfold transition_attr, merge. rewrite !place_attr, take_0, drop_0, app_nil_r.
  rewrite (each_none _ [] (circles p)) by (intros n _; apply not_elem_of_nil).
  rewrite (each_none _ [] (circles p)) by (intros n _; apply not_elem_of_nil).
  by rewrite remove_all.
Qed.

(** ** Hovering *)

Lemma find_node (svg : list Circle) c :
  NoDup (selectAll svg) -> c ∈ svg ->
  List.find (fun c' => bool_decide (node c' = node c)) svg = Some c.
Proof.
  unfold selectAll. induction svg as [|c' svg IH]; intros Hnd Hc.
  - by apply elem_of_nil in Hc.
  - rewrite fmap_cons in Hnd. apply NoDup_cons in Hnd as [Hfirst Hnd].
    apply elem_of_cons in Hc as [->|Hc]; simpl.
    + by rewrite bool_decide_eq_true_2.
    + rewrite bool_decide_eq_false_2; [by apply IH|].
      intros Heq. apply Hfirst. rewrite Heq. by apply list_elem_of_fmap_2.
Qed.

Lemma listeners_updateMap shootingsData year p c :
  wf p -> c ∈ circles (updateMap shootingsData year p) ->
  listeners c !! "mouseover" = Some ShowLocation
  /\ listeners c !! "mouseout" = Some HideTooltip.
Proof.
  intros Hwf. rewrite updateMap_join by done. intros Hc.
  apply list_elem_of_fmap in Hc as (c' & -> & _).
  unfold hovering, set_listener. simpl.
  by rewrite lookup_insert_ne, !lookup_insert_eq.
Qed.

(** C9. When [updateMap] has returned, each circle in the svg has both
    listeners: the pointer over it makes the tooltip visible with the
    location of the incident the circle shows, and the pointer leaving it
    hides the tooltip. *)
Theorem updateMap_binds_hover shootingsData (Y : Number) p c :
  wf p ->
  c ∈ circles (updateMap shootingsData Y p) ->
  let p' := updateMap shootingsData Y p in
  let over := dispatch "mouseover" (node c) p' in
  let out := dispatch "mouseout" (node c) over in
  listeners c !! "mouseover" = Some ShowLocation
  /\ listeners c !! "mouseout" = Some HideTooltip
  /\ text (tooltip over) = location (datum c)
  /\ style (tooltip over) !! "visibility" = Some "visible"
  /\ style (tooltip out) !! "visibility" = Some "hidden".
Proof.
  intros Hwf Hc p' over out.
  destruct (listeners_updateMap shootingsData Y p c Hwf Hc) as [Hover Hout].
  destruct (wf_updateMap shootingsData Y p Hwf) as [Hnd _]. fold p' in Hnd, Hc.
  assert (Hfind : over = {| circles := circles p'; yearLabel := yearLabel p';
                            tooltip := call ShowLocation (datum c) (tooltip p');
                            fresh := fresh p' |}).
  { unfold over, dispatch. by rewrite (find_node (circles p') c Hnd Hc), Hover. }
  assert (Hfind' : tooltip out = call HideTooltip (datum c) (tooltip over)).
  { unfold out, dispatch. rewrite Hfind at 1. cbn [circles].
    by rewrite (find_node (circles p') c Hnd Hc), Hout. }
  repeat split; try done.
  - by rewrite Hfind.
  - rewrite Hfind. cbn [tooltip call style]. apply lookup_insert_eq.
  - rewrite Hfind'. cbn [call style]. apply lookup_insert_eq.
Qed.

(** ** Malformed rows *)



(** ** The page after load *)

Lemma load_page incidents a :
  load incidents = Some a ->
  circles (page a) = styled <$> create 0 incidents /\ fresh (page a) = length incidents.
Proof.
  unfold load, data, append. cbn [enter fst snd].
  destruct (head (sort incidents)), (last (sort incidents)); try done.
  intros [= <-]. cbn [page circles fresh]. split.
  - rewrite place_attr. simpl. by rewrite each_all.
  - unfold selectAll, create. simpl. by rewrite length_fmap, length_imap.
Qed.

(** [load] leaves the nodes distinct. *)
Lemma wf_load incidents a : load incidents = Some a -> wf (page a).
Proof.
  intros Hload. apply load_page in Hload as [Hc Hf]. split.
  - rewrite Hc, selectAll_styled, selectAll_create. apply NoDup_seq.
  - apply Forall_forall. intros c Hin.
    assert (Hn : node c ∈ selectAll (circles (page a)))
      by (unfold selectAll; by apply list_elem_of_fmap_2).
    rewrite Hc, selectAll_styled, selectAll_create, elem_of_seq in Hn. lia.
Qed.


Lemma inputs_page ys a :
  shootingsData (inputs ys a) = shootingsData a
  /\ page (inputs ys a) = updates (shootingsData a) ys (page a).
Proof.
  revert a. induction ys as [|y ys IH]; intros a; [done|].
  destruct (IH (input y a)) as [Hdata Hpage]. split; [done|].
  unfold inputs, updates in *. cbn [foldl]. by rewrite Hpage.
Qed.

(** On the loaded page, after any slider inputs, the circles show the
    incidents of the slider's year. *)
Lemma inputs_draw_slider_year incidents a ys Y :
  load incidents = Some a ->
  datum <$> circles (page (inputs (ys ++ [Y]) a)) = yearData (shootingsData a) Y.
Proof.
  intros Hload. destruct (inputs_page (ys ++ [Y]) a) as [_ ->].
  unfold updates. rewrite foldl_app. cbn [foldl].
  apply datum_updateMap. apply wf_updates. by eapply wf_load.
Qed.

(** ** The sort of line 122 and the slider *)

Lemma insert_sorted_perm a l : insert_sorted a l ≡ₚ a :: l.
Proof.
  induction l as [|b l IH]; [done|]. simpl.
  destruct (stays_before a b); [done|].
  rewrite IH. apply Permutation_swap.
Qed.

Lemma sort_perm l : sort l ≡ₚ l.
Proof.
  induction l as [|a l IH]; [done|]. simpl.
  by rewrite insert_sorted_perm, IH.
Qed.

Lemma year_le_trans a b c : year_le a b -> year_le b c -> year_le a c.
Proof.
  intros (x & y & Hx & Hy & Hxy) (y' & z & Hy' & Hz & Hyz).
  rewrite Hy in Hy'. injection Hy' as <-.
  exists x, z. repeat split; try done. lia.
Qed.

Lemma insert_sorted_sorted a l :
  (exists x, year a = Int x) ->
  Forall (fun d => exists y, year d = Int y) l ->
  StronglySorted year_le l -> StronglySorted year_le (insert_sorted a l).
Proof.
  intros [x Hx] Hint Hs. induction Hs as [|b l Hs IH Hb]; simpl.
  - repeat constructor.
  - apply Forall_cons in Hint as [[y Hy] Hint].
    unfold stays_before. rewrite Hx, Hy. simpl.
    destruct (x - y <=? 0)%Z eqn:Hle.
    + apply Z.leb_le in Hle.
      assert (Hab : year_le a b) by (exists x, y; repeat split; try done; lia).
      constructor; [by constructor|]. constructor; [done|].
      eapply Forall_impl; [exact Hb|]. intros c Hc. by eapply year_le_trans.
    + apply Z.leb_gt in Hle.
      constructor; [by apply IH|].
      rewrite insert_sorted_perm. constructor; [|done].
      exists y, x. repeat split; try done. lia.
Qed.

Lemma sort_sorted l :
  Forall (fun d => exists y, year d = Int y) l -> StronglySorted year_le (sort l).
Proof.
  induction l as [|a l IH]; intros Hint; [constructor|].
  apply Forall_cons in Hint as [Ha Hint]. simpl.
  apply insert_sorted_sorted; [done| |by apply IH].
  by rewrite sort_perm.
Qed.

Lemma sorted_last_max l latest :
  Forall (fun d => exists y, year d = Int y) l ->
  StronglySorted year_le l -> last l = Some latest ->
  Forall (fun d => year_le d latest) l.
Proof.
  intros Hint Hs. revert latest. induction Hs as [|a l Hs IH Ha]; intros latest Hlast; [done|].
  apply Forall_cons in Hint as [[x Hx] Hint].
  destruct l as [|b l].
  - injection Hlast as <-. repeat constructor. exists x, x. by repeat split.
  - change (last (b :: l) = Some latest) in Hlast.
    constructor; [|by apply IH].
    rewrite Forall_forall in Ha. apply Ha.
    rewrite last_Some in Hlast. destruct Hlast as [l' ->].
    apply elem_of_app. right. left.
Qed.

(** With every year an integer, the slider starts at the latest year of the
    data set and the label shows it. *)
Lemma load_initialYear incidents a :
  Forall (fun d => exists y, year d = Int y) incidents ->
  load incidents = Some a ->
  exists latest,
    latest ∈ incidents
    /\ slider a !! "value" = Some (year latest)
    /\ yearLabel (page a) = year latest
    /\ Forall (fun d => year_le d latest) incidents.
Proof.
  intros Hint. unfold load, data, append. cbn [enter fst snd].
  destruct (head (sort incidents)) as [earliest|] eqn:Hhead; [|done].
  destruct (last (sort incidents)) as [latest|] eqn:Hlast; [|done].
  intros [= <-]. exists latest. cbn [slider page yearLabel].
  assert (Hsorted : Forall (fun d => exists y, year d = Int y) (sort incidents))
    by by rewrite sort_perm.
  pose proof (sorted_last_max _ _ Hsorted (sort_sorted _ Hint) Hlast) as Hmax.
  rewrite sort_perm in Hmax.
  repeat split; try done.
  rewrite <- (sort_perm incidents).
  rewrite last_Some in Hlast. destruct Hlast as [l' ->].
  apply elem_of_app. right. left.
Qed.

(** ** Further properties: the load callback *)

Lemma load_Some incidents earliest latest :
  head (sort incidents) = Some earliest -> last (sort incidents) = Some latest ->
  exists a, load incidents = Some a
            /\ shootingsData a = sort incidents
            /\ slider a !! "min" = Some (year earliest)
            /\ slider a !! "max" = Some (year latest)
            /\ slider a !! "value" = Some (year latest)
            /\ yearLabel (page a) = year latest.
Proof.
  intros Hhead Hlast. unfold load, data, append. cbn [enter fst snd].
  rewrite Hhead, Hlast. eexists. split; [done|]. cbn [shootingsData slider page yearLabel].
  by rewrite lookup_insert_eq, !lookup_insert_ne, !lookup_insert_eq by done.
Qed.

(** X1. The load callback fails exactly when the data set has no incident
    ([shootingsData[0].year] of line 134 throws): with one incident or more
    it completes. *)
Theorem load_fails_only_without_incidents incidents :
  load incidents = None <-> incidents = [].
Proof.
  split.
  - intros Hload. destruct (sort incidents) as [|b l] eqn:Hsort.
    + apply Permutation_nil. by rewrite <- Hsort, sort_perm.
    + destruct (last (b :: l)) as [latest|] eqn:Hlast.
      * destruct (load_Some incidents b latest) as (a & Ha & _); [by rewrite Hsort..|].
        by rewrite Ha in Hload.
      * by apply last_None in Hlast.
  - by intros ->.
Qed.


Lemma datum_styled_create next incidents c :
  c ∈ styled <$> create next incidents ->
  exists c', c = styled c' /\ attrs c' = ∅ /\ listeners c' = ∅.
Proof.
  intros Hc. apply list_elem_of_fmap in Hc as (c' & -> & Hc'). exists c'. split; [done|].
  unfold create in Hc'. apply list_elem_of_lookup in Hc' as [i Hi].
  rewrite list_lookup_imap in Hi.
  destruct (incidents !! i) as [d|]; [|done]. by injection Hi as <-.
Qed.


Lemma find_elem_of (svg : list Circle) n c :
  List.find (fun c' => bool_decide (node c' = n)) svg = Some c -> c ∈ svg.
Proof. intros Hfind. apply find_some in Hfind as [Hin _]. by apply list_elem_of_In. Qed.

(** X3. Until the slider is first moved no circle has a listener: pointer
    events on the loaded page change nothing, so the tooltip stays empty. *)
Theorem load_binds_no_listener incidents a type n :
  load incidents = Some a ->
  dispatch type n (page a) = page a
  /\ tooltip (page a) = {| style := ∅; text := "" |}.
Proof.
  intros Hload. split.
  - pose proof Hload as Hpage. apply load_page in Hpage as [Hcircles _].
    unfold dispatch.
    destruct (List.find _ (circles (page a))) as [c|] eqn:Hfind; [|done].
    apply find_elem_of in Hfind. rewrite Hcircles in Hfind.
    apply datum_styled_create in Hfind as (c' & -> & _ & Hnone).
    by rewrite listeners_styled, Hnone, lookup_empty.
  - revert Hload. unfold load, data, append. cbn [enter fst snd].
    destruct (head (sort incidents)), (last (sort incidents)); try done.
    by intros [= <-].
Qed.

(** ** Further properties: the sort *)



(** X4. With every year an integer, the sort of line 122 returns the same
    incidents in an order of non-decreasing year. *)
Theorem sort_orders_by_year l :
  Forall (fun d => exists y, year d = Int y) l ->
  sort l ≡ₚ l /\ StronglySorted year_le (sort l).
Proof. intros Hint. split; [apply sort_perm|by apply sort_sorted]. Qed.


Lemma sorted_head_min l earliest :
  Forall (fun d => exists y, year d = Int y) l ->
  StronglySorted year_le l -> head l = Some earliest ->
  Forall (fun d => year_le earliest d) l.
Proof.
  intros Hint Hs Hhead. destruct Hs as [|a l Hs Ha]; [done|].
  injection Hhead as <-. apply Forall_cons in Hint as [[x Hx] _].
  constructor; [|done]. exists x, x. by repeat split.
Qed.

(** X6. With every year an integer, load sets the slider's min to the
    earliest year and its max and value to the latest, the label shows the
    latest, and the year of every incident lies between the two. *)
Theorem load_slider_bounds incidents a :
  Forall (fun d => exists y, year d = Int y) incidents ->
  load incidents = Some a ->
  exists lo hi,
    slider a !! "min" = Some (Int lo)
    /\ slider a !! "max" = Some (Int hi)
    /\ slider a !! "value" = Some (Int hi)
    /\ yearLabel (page a) = Int hi
    /\ (exists d, d ∈ incidents /\ year d = Int lo)
    /\ (exists d, d ∈ incidents /\ year d = Int hi)
    /\ forall d, d ∈ incidents -> exists y, year d = Int y /\ (lo <= y <= hi)%Z.
Proof.
  intros Hint Hload.
  assert (Hsorted : Forall (fun d => exists y, year d = Int y) (sort incidents))
    by by rewrite sort_perm.
  destruct (head (sort incidents)) as [earliest|] eqn:Hhead; cycle 1.
  { apply head_None in Hhead. revert Hload. unfold load, data, append.
    cbn [enter fst snd]. by rewrite Hhead. }
  destruct (last (sort incidents)) as [latest|] eqn:Hlast; cycle 1.
  { apply last_None in Hlast. by rewrite Hlast in Hhead. }
  destruct (load_Some incidents earliest latest Hhead Hlast)
    as (a' & Ha' & _ & Hmin & Hmax & Hvalue & Hlabel).
  rewrite Hload in Ha'. injection Ha' as <-.
  pose proof (sorted_head_min _ _ Hsorted (sort_sorted _ Hint) Hhead) as Hlo.
  pose proof (sorted_last_max _ _ Hsorted (sort_sorted _ Hint) Hlast) as Hhi.
  rewrite sort_perm in Hlo, Hhi. rewrite Forall_forall in Hlo, Hhi.
  assert (Hearliest : earliest ∈ incidents).
  { rewrite <- (sort_perm incidents). destruct (sort incidents); [done|].
    injection Hhead as <-. left. }
  assert (Hlatest : latest ∈ incidents).
  { rewrite <- (sort_perm incidents). apply last_Some in Hlast as [l' ->].
    apply elem_of_app. right. left. }
  destruct (Hlo earliest Hearliest) as (lo & _ & Hylo & _).
  destruct (Hhi latest Hlatest) as (hi & _ & Hyhi & _).
  exists lo, hi. rewrite <- Hylo, <- Hyhi.
  split; [done|]. split; [done|]. split; [done|]. split; [done|].
  split; [by exists earliest|]. split; [by exists latest|].
  intros d Hd.
  destruct (Hlo d Hd) as (lo' & y & Hlo' & Hy & Hle).
  destruct (Hhi d Hd) as (y' & hi' & Hy' & Hhi' & Hle').
  exists y. split; [done|].
  rewrite Hylo in Hlo'. rewrite Hyhi in Hhi'. rewrite Hy in Hy'.
  injection Hlo' as <-. injection Hhi' as <-. injection Hy' as <-. lia.
Qed.

(** ** Further properties: updateMap *)

(** X7. [updateMap] joins by position: the nodes in the svg afterwards are
    the first nodes that were there, as many as the visible set has
    incidents, followed by a new node for each incident beyond them; it
    creates nodes only when the visible set outgrows the circles. *)
Theorem updateMap_reuses_nodes_in_order shootingsData (Y : Number) p :
  wf p ->
  let visible := length (yearData shootingsData Y) in
  selectAll (circles (updateMap shootingsData Y p))
    = take visible (selectAll (circles p)) ++ seq (fresh p) (visible - length (circles p))
  /\ fresh (updateMap shootingsData Y p) = fresh p + (visible - length (circles p))
  /\ length (circles (updateMap shootingsData Y p)) = visible.
Proof.
  intros Hwf visible. split; [by apply selectAll_updateMap|].
  split; [apply fresh_updateMap|].
  by rewrite <- (length_fmap datum), datum_updateMap.
Qed.


Lemma updateMap_no_visible shootingsData year p :
  yearData shootingsData year = [] -> circles (updateMap shootingsData year p) = [].
Proof.
  intros Hempty. unfold updateMap, data, append. rewrite Hempty.
  cbn [circles update enter exit fst snd length]. rewrite zip_nil_r, drop_nil.
  change (create (fresh p) []) with (@nil Circle).
  change (foldl set_datum (circles p) []) with (circles p).
  change (selectAll (@nil Circle)) with (@nil nat).
  rewrite app_nil_r, on_selectAll.
  unfold transition_attr, merge. rewrite !place_attr, take_0, drop_0, app_nil_r.
  rewrite (each_none _ [] (circles p)) by (intros n _; apply not_elem_of_nil).
  rewrite (each_none _ [] (circles p)) by (intros n _; apply not_elem_of_nil).
  by rewrite remove_all.
Qed.

(** X9. A year that is NaN (a slider value that is no number) matches no
    incident, not even one whose own year is NaN: [updateMap] then removes
    every circle, whatever the data set and the page. *)
Theorem updateMap_NaN_removes_all shootingsData p :
  yearData shootingsData NaN = []
  /\ circles (updateMap shootingsData NaN p) = []
  /\ yearLabel (updateMap shootingsData NaN p) = NaN.
Proof.
  assert (Hempty : yearData shootingsData NaN = []).
  { apply elem_of_nil_inv. intros d Hd. apply elem_of_yearData in Hd as [_ Hy].
    by rewrite loose_eq_NaN_r in Hy. }
  split; [done|]. split; [by apply updateMap_no_visible|done].
Qed.

(** ** Further properties: events on the loaded page *)

Lemma dispatch_page type n p :
  circles (dispatch type n p) = circles p
  /\ yearLabel (dispatch type n p) = yearLabel p
  /\ fresh (dispatch type n p) = fresh p.
Proof.
  unfold dispatch. destruct (List.find _ (circles p)) as [c|]; [|done].
  by destruct (listeners c !! type).
Qed.

Lemma wf_dispatch type n p : wf p -> wf (dispatch type n p).
Proof.
  unfold wf. destruct (dispatch_page type n p) as (-> & _ & ->). done.
Qed.

Lemma wf_handle a e : wf (page a) -> wf (page (handle a e)).
Proof.
  intros Hwf. destruct e as [value|type n]; cbn [handle input page].
  - by apply wf_updateMap.
  - by apply wf_dispatch.
Qed.


Lemma wf_run es a : wf (page a) -> wf (page (run es a)).
Proof.
  revert a. induction es as [|e es IH]; intros a Hwf; [done|].
  unfold run in *. cbn [foldl]. by apply IH, wf_handle.
Qed.

(** X10. The circles of the page are distinct DOM nodes, all older than
    the next node to be created, after load and after every sequence of
    slider and pointer events. *)
Theorem run_keeps_nodes_distinct incidents a es :
  load incidents = Some a -> wf (page (run es a)).
Proof. intros Hload. apply wf_run. by eapply wf_load. Qed.




(** X12. Pointer events change nothing but the tooltip; once the pointer
    has left a circle the tooltip is hidden and still holds the location of
    that circle's incident. *)
Theorem pointer_leaves_text shootingsData (Y : Number) p c :
  wf p ->
  c ∈ circles (updateMap shootingsData Y p) ->
  let p' := updateMap shootingsData Y p in
  let out := dispatch "mouseout" (node c) (dispatch "mouseover" (node c) p') in
  circles out = circles p'
  /\ yearLabel out = Y
  /\ text (tooltip out) = location (datum c)
  /\ style (tooltip out) !! "visibility" = Some "hidden".
Proof.
  intros Hwf Hc p' out.
  destruct (listeners_updateMap shootingsData Y p c Hwf Hc) as [Hover Hout].
  destruct (wf_updateMap shootingsData Y p Hwf) as [Hnd _]. fold p' in Hnd, Hc.
  set (over := dispatch "mouseover" (node c) p').
  destruct (dispatch_page "mouseover" (node c) p') as (Hcircles & Hlabel & _).
  fold over in Hcircles, Hlabel.
  destruct (dispatch_page "mouseout" (node c) over) as (Hcircles' & Hlabel' & _).
  change (dispatch "mouseout" (node c) over) with out in Hcircles', Hlabel'.
  split; [by rewrite Hcircles', Hcircles|]. split; [by rewrite Hlabel', Hlabel|].
  assert (Hover_tip : tooltip over = call ShowLocation (datum c) (tooltip p')).
  { unfold over, dispatch. by rewrite (find_node (circles p') c Hnd Hc), Hover. }
  assert (Hout_tip : tooltip out = call HideTooltip (datum c) (tooltip over)).
  { unfold out. change (dispatch "mouseover" (node c) p') with over.
    unfold dispatch at 1. rewrite Hcircles.
    by rewrite (find_node (circles p') c Hnd Hc), Hout. }
  rewrite Hout_tip, Hover_tip. cbn [call text style]. split; [done|].
  apply lookup_insert_eq.
Qed.

(** ** Further properties: parseCSV *)

(** X13. A row whose date parses becomes an incident of the local year of
    that date, with the row's case id and location: in a collection that
    holds it, it is in the visible set of that year and of no other. *)
Theorem parseCSV_dated_row (row : Row) (t : Z) shootingsData (Y : Z) :
  Date_parse (Date row) = TimeValue t ->
  parseCSV row ∈ shootingsData ->
  id (parseCSV row) = CaseID row
  /\ location (parseCSV row) = Location row
  /\ year (parseCSV row) = Int (LocalYear t)
  /\ (parseCSV row ∈ yearData shootingsData (Int Y) <-> Y = LocalYear t).
Proof.
  intros Hdate Hin.
  assert (Hyear : year (parseCSV row) = Int (LocalYear t)).
  { unfold parseCSV. cbn [year]. by rewrite Hdate. }
  split; [done|]. split; [done|]. split; [done|].
  rewrite elem_of_yearData, loose_eq_Int, Hyear. split.
  - by intros [_ [= ->]].
  - by intros ->.
Qed.

End Script.

(** * rScale (lines 93-95) *)

(** d3-scale's square-root scale, [d3.scaleSqrt().domain([0,50]).range([0,25])],
    with binary64 arithmetic read as arithmetic on the reals.  The scale is
    d3's continuous scale over [transformSqrt]: the domain is transformed,
    [bimap] normalizes the transformed input over it and interpolates the
    range; no [clamp] is set. *)
Module Scale.

Local Open Scope R_scope.

(** [function transformSqrt(x) { return x < 0 ? -Math.sqrt(-x) : Math.sqrt(x); }] *)
Definition transformSqrt (x : R) : R :=
  if Rlt_dec x 0 then - sqrt (- x) else sqrt x.

(** [normalize(a, b)]: [x => (x - a) / (b - a)], the constant 0.5 when [b = a]. *)
Definition normalize (a b : R) (x : R) : R :=
  if Req_dec_T (b - a) 0 then 1 / 2 else (x - a) / (b - a).

(** [interpolateNumber(a, b)]: [t => a * (1 - t) + b * t]. *)
Definition interpolateNumber (a b : R) (t : R) : R := a * (1 - t) + b * t.

(** [bimap(domain, range, interpolate)] on a transformed domain. *)
Definition bimap (d0 d1 r0 r1 : R) (x : R) : R :=
  if Rlt_dec d1 d0
  then interpolateNumber r1 r0 (normalize d1 d0 x)
  else interpolateNumber r0 r1 (normalize d0 d1 x).

Definition scaleSqrt (domain range : R * R) (x : R) : R :=
  bimap (transformSqrt (fst domain)) (transformSqrt (snd domain))
        (fst range) (snd range) (transformSqrt x).

Definition rScale : R -> R := scaleSqrt (0, 50) (0, 25).

Lemma sqrt_50_pos : 0 < sqrt 50.
Proof. apply sqrt_lt_R0. lra. Qed.

(** On a victim count that is not negative the scale is 25 sqrt(v / 50). *)
Lemma rScale_sqrt (v : R) : 0 <= v -> rScale v = 25 * sqrt (v / 50).
Proof.
  intros Hv. pose proof sqrt_50_pos as H50.
  unfold rScale, scaleSqrt, bimap, transformSqrt, normalize, interpolateNumber. simpl.
  destruct (Rlt_dec 0 0) as [?|_]; [lra|].
  destruct (Rlt_dec 50 0) as [?|_]; [lra|].
  destruct (Rlt_dec v 0) as [?|_]; [lra|].
  rewrite sqrt_0.
  destruct (Rlt_dec (sqrt 50) 0) as [?|_]; [lra|].
  destruct (Req_dec_T (sqrt 50 - 0) 0) as [?|_]; [lra|].
  rewrite sqrt_div_alt by lra. field. lra.
Qed.


(** C6. The radius scale takes 0 to 0 and 50 to 25, is 25 sqrt(v / 50) on
    the counts of its domain, and does not decrease from [a] to a larger
    [b] within [0, 50]. *)
Theorem rScale_monotone_on_domain (a b : R) :
  0 <= a -> a < b -> b <= 50 ->
  rScale 0 = 0 /\ rScale 50 = 25
  /\ rScale a = 25 * sqrt (a / 50) /\ rScale b = 25 * sqrt (b / 50)
  /\ rScale a <= rScale b.
Proof.
  intros Ha Hab Hb.
  assert (H0 : rScale 0 = 0).
  { rewrite rScale_sqrt by lra. replace (0 / 50) with 0 by field.
    rewrite sqrt_0. ring. }
  assert (H1 : rScale 50 = 25).
  { rewrite rScale_sqrt by lra. replace (50 / 50) with 1 by field.
    rewrite sqrt_1. ring. }
  repeat split; try done; try (apply rScale_sqrt; lra).
  rewrite !rScale_sqrt by lra.
  apply Rmult_le_compat_l; [lra|]. apply sqrt_le_1_alt. lra.
Qed.

Lemma rScale_monotone_on_domain_witness :
  rScale 0 = 0 /\ rScale 50 = 25
  /\ rScale 8 = 25 * sqrt (8 / 50) /\ rScale 32 = 25 * sqrt (32 / 50)
  /\ rScale 8 <= rScale 32.
Proof. apply (rScale_monotone_on_domain 8 32); lra. Defined.



(** Below zero the scale mirrors the square root. *)
Lemma rScale_negative (v : R) : v < 0 -> rScale v = - (25 * sqrt (- v / 50)).
Proof.
  intros Hv. pose proof sqrt_50_pos as H50.
  unfold rScale, scaleSqrt, bimap, transformSqrt, normalize, interpolateNumber.
  cbn [fst snd].
  destruct (Rlt_dec 0 0) as [?|_]; [lra|].
  destruct (Rlt_dec 50 0) as [?|_]; [lra|].
  destruct (Rlt_dec v 0) as [_|?]; [|lra].
  rewrite sqrt_0.
  destruct (Rlt_dec (sqrt 50) 0) as [?|_]; [lra|].
  destruct (Req_dec_T (sqrt 50 - 0) 0) as [?|_]; [lra|].
  rewrite sqrt_div_alt by lra. field. lra.
Qed.




(** X16. The scale is odd: a negative count has the radius of its absolute
    value, negated. *)
Theorem rScale_odd (v : R) : rScale (- v) = - rScale v.
Proof.
  destruct (Rtotal_order v 0) as [Hv|[->|Hv]].
  - rewrite (rScale_sqrt (- v)), (rScale_negative v) by lra. lra.
  - rewrite Ropp_0, rScale_sqrt by lra. replace (0 / 50) with 0 by field.
    rewrite sqrt_0. lra.
  - rewrite (rScale_negative (- v)), (rScale_sqrt v) by lra.
    by rewrite Ropp_involutive.
Qed.

End Scale.

(** * The script on a small data set *)

(** A host to run the script on: binary64 Numbers, d3's square-root scale
    computed in binary64, and the built-ins on the few strings the rows
    below hold.  [d3.geoAlbers] is not computed: each point is placed at
    its longitude and latitude. *)
Module Example.

Definition transformSqrt (x : float) : float :=
  if (x <? 0)%float then (- PrimFloat.sqrt (- x))%float else PrimFloat.sqrt x.

Definition rScale (x : float) : float :=
  let d0 := transformSqrt 0 in
  let d1 := transformSqrt 50 in
  let t := ((transformSqrt x - d0) / (d1 - d0))%float in
  (0 * (1 - t) + 25 * t)%float.

Definition projection (lonlat : float * float) : float * float := lonlat.

(** Unary [+] on the strings of the rows: the empty string is 0, a string
    that is no numeric literal is NaN. *)
Definition ToNumber (s : string) : float :=
  if decide (s = "") then 0%float
  else if decide (s = "30.25") then 30.25%float
  else if decide (s = "-97.75") then (-97.75)%float
  else if decide (s = "48") then 48%float
  else nan.

(** [new Date(s)] on the strings of the rows, on a host in UTC. *)
Definition Date_parse (s : string) : JSDate :=
  if decide (s = "8/1/1966") then TimeValue (-107913600000)%Z
  else InvalidDate.

(** YearFromTime, the civil year of a time value, on a host in UTC. *)
Definition LocalYear (t : Z) : Z :=
  let z := (t / 86400000 + 719468)%Z in
  let era := (z / 146097)%Z in
  let doe := (z - era * 146097)%Z in
  let yoe := ((doe - doe / 1460 + doe / 36524 - doe / 146096) / 365)%Z in
  let doy := (doe - (365 * yoe + yoe / 4 - yoe / 100))%Z in
  let mp := ((5 * doy + 2) / 153)%Z in
  if (mp <? 10)%Z then (yoe + era * 400)%Z else (yoe + era * 400 + 1)%Z.

(** A well-formed row and a malformed one. *)
Definition austin : Row :=
  {| CaseID := "1"; Location := "Austin, Texas"; Latitude := "30.25";
     Longitude := "-97.75"; Total_Number_of_Victims := "48"; Date := "8/1/1966" |}.


(** The two incidents of the spec's scenario. *)
Definition A : @Incident float :=
  {| id := "A"; location := "San Bernardino, California";
     latitude := 34.125%float; longitude := (-117.25)%float; victims := 10%float;
     date := TimeValue 1449014400000%Z; year := Int 2015%Z |}.

Definition B : @Incident float :=
  {| id := "B"; location := "Orlando, Florida";
     latitude := 28.5%float; longitude := (-81.375)%float; victims := 5%float;
     date := TimeValue 1465689600000%Z; year := Int 2016%Z |}.

(** The page the load callback leaves for the data set [A, B]. *)
Definition loaded : App :=
  default {| shootingsData := []; slider := ∅;
             page := {| circles := []; yearLabel := NaN;
                        tooltip := {| style := ∅; text := "" |}; fresh := 0 |} |}
          (load projection rScale [A; B]).

(** Each circle's node with the id of the incident it shows. *)
Definition shown (p : @Page float) : list (nat * string) :=
  (fun c => (node c, id (datum c))) <$> circles p.

(** The slider moved to 2015 and then to 2016. *)
Definition at_2015 : Page := updateMap projection rScale [A; B] (Int 2015) (page loaded).
Definition at_2016 : Page := updateMap projection rScale [A; B] (Int 2016) at_2015.

(** The circle that shows B once the slider is at 2016. *)
Definition circle_B : Circle :=
  {| node := 0; datum := B;
     attrs := <["fill" := Str "#CC0000"]> (<["opacity" := Str "0.7"]>
                (<["r" := Num (rScale 5)]> (<["cy" := Num 28.5%float]>
                  (<["cx" := Num (-81.375)%float]> ∅))));
     listeners := <["mouseout" := HideTooltip]> (<["mouseover" := ShowLocation]> ∅) |}.


(** The slider moved to 2016, then the pointer over node 0 and away. *)
Definition session : list Event :=
  [SliderInput (Int 2016); Pointer "mouseover" 0; Pointer "mouseout" 0].

(** A victim count as a binary64 Number, and a list that never decreases. *)
Definition count (n : nat) : float := PrimFloat.of_uint63 (Uint63.of_Z (Z.of_nat n)).

Definition nondecreasing (l : list float) : bool :=
  forallb (fun ab => (fst ab <=? snd ab)%float) (zip l (tail l)).

Example parseCSV_austin :
  parseCSV ToNumber Date_parse LocalYear austin =
    {| id := "1"; location := "Austin, Texas"; latitude := 30.25%float;
       longitude := (-97.75)%float; victims := 48%float;
       date := TimeValue (-107913600000)%Z; year := Int 1966%Z |}.
Proof. reflexivity. Qed.

Example load_A_B :
  load projection rScale [A; B] = Some loaded
  /\ shootingsData loaded = [A; B]
  /\ shown (page loaded) = [(0, "A"); (1, "B")]
  /\ fresh (page loaded) = 2.
Proof. vm_compute. done. Qed.

Lemma wf_loaded : wf (page loaded).
Proof. apply (@bool_decide_unpack _ (wf_dec (page loaded))). vm_compute. exact I. Defined.

(** C2 on the code. The join is by index, not by id.  With the slider
    moved from 2015 to 2016, B is shown on node 0, the node that showed A:
    no node is created for B and A's node is not removed.  And straight
    after load, [updateMap(2016)] removes node 1, which showed B, and
    rebinds node 0 from A to B. *)
Example updateMap_joins_by_index :
  shown at_2015 = [(0, "A")]
  /\ shown at_2016 = [(0, "B")]
  /\ fresh at_2016 = fresh at_2015
  /\ shown (page loaded) = [(0, "A"); (1, "B")]
  /\ shown (updateMap projection rScale [A; B] (Int 2016) (page loaded)) = [(0, "B")].
Proof. vm_compute. done. Qed.

(** C5 on the code. After load the slider and the label are at 2016, the
    latest year, and the circles show A, of 2015, as well as B: the whole
    data set and not the visible set of 2016. *)
Example load_draws_every_year :
  slider loaded !! "value" = Some (Int 2016)
  /\ yearLabel (page loaded) = Int 2016
  /\ yearData (shootingsData loaded) (Int 2016) = [B]
  /\ datum <$> circles (page loaded) = [A; B].
Proof. vm_compute. done. Qed.

(** The scenario of the spec: the visible sets of 2015, 2016 and 1999. *)
Example scenario_visible_sets :
  yearData [A; B] (Int 2015) = [A]
  /\ yearData [A; B] (Int 2016) = [B]
  /\ yearData [A; B] (Int 1999) = []
  /\ shown (updateMap projection rScale [A; B] (Int 1999) at_2016) = [].
Proof. vm_compute. done. Qed.

(** X17. The scale in binary64 on whole victim counts: 0 and 25 at the ends of
    the domain, never decreasing from 0 to 50, above 25 from 51 to 2000.
    The Number next above 50 still has radius 25: its square root rounds
    to that of 50. *)
Example rScale_binary64 :
  rScale 0 = 0%float
  /\ rScale 50 = 25%float
  /\ nondecreasing ((fun n => rScale (count n)) <$> seq 0 51) = true
  /\ forallb (fun n => (25 <? rScale (count n))%float) (seq 51 1950) = true
  /\ rScale (next_up 50) = 25%float.
Proof. vm_compute. done. Qed.

Lemma updateMap_renders_visible_set_witness :
  rendered_ids (updateMap projection rScale [A; B] (Int 2016)
                  (updates projection rScale [A; B] [Int 2015; Int 1999] (page loaded)))
    = id <$> yearData [A; B] (Int 2016).
Proof. apply updateMap_renders_visible_set. exact wf_loaded. Defined.

Lemma updateMap_idempotent_witness :
  updateMap projection rScale [A; B] (Int 2016)
    (updateMap projection rScale [A; B] (Int 2016) (page loaded))
  = updateMap projection rScale [A; B] (Int 2016) (page loaded).
Proof. apply updateMap_idempotent. exact wf_loaded. Defined.

Lemma updateMap_year_without_incidents_witness :
  yearData [A; B] (Int 1999) = []
  /\ circles (updateMap projection rScale [A; B] (Int 1999) (page loaded)) = []
  /\ yearLabel (updateMap projection rScale [A; B] (Int 1999) (page loaded)) = Int 1999.
Proof.
  apply updateMap_year_without_incidents.
  intros d Hd. apply (Forall_forall (fun d => year d <> Int 1999) [A; B]); [|done].
  repeat constructor; discriminate.
Defined.

Lemma updateMap_binds_hover_witness :
  listeners circle_B !! "mouseover" = Some ShowLocation
  /\ listeners circle_B !! "mouseout" = Some HideTooltip
  /\ text (tooltip (dispatch "mouseover" 0 at_2016)) = "Orlando, Florida"
  /\ style (tooltip (dispatch "mouseover" 0 at_2016)) !! "visibility" = Some "visible"
  /\ style (tooltip (dispatch "mouseout" 0 (dispatch "mouseover" 0 at_2016)))
       !! "visibility" = Some "hidden".
Proof.
  apply (updateMap_binds_hover projection rScale [A; B] (Int 2016) at_2015 circle_B).
  - apply (@bool_decide_unpack _ (wf_dec at_2015)). vm_compute. exact I.
  - apply (list_elem_of_lookup_2 _ 0). vm_compute. reflexivity.
Defined.


Lemma load_A_B_Some : load projection rScale [A; B] = Some loaded.
Proof. vm_compute. reflexivity. Defined.

Lemma years_A_B : Forall (fun d : @Incident float => exists y, year d = Int y) [A; B].
Proof. repeat constructor; eexists; reflexivity. Defined.


Lemma load_binds_no_listener_witness :
  dispatch "mouseover" 0 (page loaded) = page loaded
  /\ tooltip (page loaded) = {| style := ∅; text := "" |}.
Proof.
  apply (load_binds_no_listener projection rScale [A; B] loaded).
  exact load_A_B_Some.
Defined.

Lemma sort_orders_by_year_witness :
  sort [B; A; B] ≡ₚ [B; A; B] /\ StronglySorted year_le (sort [B; A; B]).
Proof. apply sort_orders_by_year. repeat constructor; eexists; reflexivity. Defined.


Lemma load_slider_bounds_witness :
  exists lo hi,
    slider loaded !! "min" = Some (Int lo)
    /\ slider loaded !! "max" = Some (Int hi)
    /\ slider loaded !! "value" = Some (Int hi)
    /\ yearLabel (page loaded) = Int hi
    /\ (exists d, d ∈ [A; B] /\ year d = Int lo)
    /\ (exists d, d ∈ [A; B] /\ year d = Int hi)
    /\ forall d, d ∈ [A; B] -> exists y, year d = Int y /\ (lo <= y <= hi)%Z.
Proof.
  apply (load_slider_bounds projection rScale [A; B] loaded).
  - exact years_A_B.
  - exact load_A_B_Some.
Defined.

Lemma updateMap_reuses_nodes_in_order_witness :
  let visible := length (yearData [A; B] (Int 2016)) in
  selectAll (circles (updateMap projection rScale [A; B] (Int 2016) (page loaded)))
    = take visible (selectAll (circles (page loaded)))
      ++ seq (fresh (page loaded)) (visible - length (circles (page loaded)))
  /\ fresh (updateMap projection rScale [A; B] (Int 2016) (page loaded))
     = fresh (page loaded) + (visible - length (circles (page loaded)))
  /\ length (circles (updateMap projection rScale [A; B] (Int 2016) (page loaded))) = visible.
Proof. apply updateMap_reuses_nodes_in_order. exact wf_loaded. Defined.


Lemma run_keeps_nodes_distinct_witness :
  wf (page (run projection rScale session loaded)).
Proof. apply (run_keeps_nodes_distinct projection rScale [A; B]). exact load_A_B_Some. Defined.


Lemma pointer_leaves_text_witness :
  let p' := updateMap projection rScale [A; B] (Int 2016) at_2015 in
  let out := dispatch "mouseout" (node circle_B) (dispatch "mouseover" (node circle_B) p') in
  circles out = circles p'
  /\ yearLabel out = Int 2016
  /\ text (tooltip out) = location (datum circle_B)
  /\ style (tooltip out) !! "visibility" = Some "hidden".
Proof.
  apply (pointer_leaves_text projection rScale [A; B] (Int 2016) at_2015 circle_B).
  - apply (@bool_decide_unpack _ (wf_dec at_2015)). vm_compute. exact I.
  - apply (list_elem_of_lookup_2 _ 0). vm_compute. reflexivity.
Defined.

Lemma parseCSV_dated_row_witness :
  id (parseCSV ToNumber Date_parse LocalYear austin) = CaseID austin
  /\ location (parseCSV ToNumber Date_parse LocalYear austin) = Location austin
  /\ year (parseCSV ToNumber Date_parse LocalYear austin) = Int (LocalYear (-107913600000))
  /\ (parseCSV ToNumber Date_parse LocalYear austin
        ∈ yearData [A; parseCSV ToNumber Date_parse LocalYear austin] (Int 1966)
      <-> 1966%Z = LocalYear (-107913600000)).
Proof.
  apply (parseCSV_dated_row ToNumber Date_parse LocalYear austin (-107913600000)).
  - reflexivity.
  - right. left.
Defined.

End Example.
